(** * Real.h: comparison of floating-point numbers in units in the last place

    A shallow embedding of [src/Real.h] (namespace [Elements]) and the
    properties of its ULP comparison.

    Conventions of the embedding:
    - an unsigned integer of [W] bits is a [Z] in [0, 2^W); every operator of
      the source that can leave that interval is followed by its wrap-around;
    - an object of the floating type [RawType] is represented by the content
      of its storage, read as an unsigned integer of [8 * sizeof(RawType)]
      bits: the value [isEqual] obtains through its pointer cast;
    - [Bits] is not narrower than [int], so no operand of [~], [+], [-],
      [|] or [&] is promoted to a signed type;
    - the bit counts, of type [std::size_t], are plain integers: in an
      instantiation that is well-formed none of them wraps;
    - [max_ulps], a template argument of the source, is an ordinary argument;
    - a template instantiation that is ill-formed is [None]. *)

From Stdlib Require Import ZArith Lia Bool QArith Qpower.
From Stdlib Require Import Floats.SpecFloat Floats.PrimFloat Floats.FloatOps.
Local Open Scope Z_scope.

(** ** Unsigned arithmetic in a fixed width *)

Module UInt.
Section Width.
Variable W : Z.

Definition in_range (x : Z) : Prop := 0 <= x < 2 ^ W.
Definition wrap (x : Z) : Z := x mod 2 ^ W.

(** [~x] *)
Definition lnot (x : Z) : Z := wrap (Z.lnot x).
(** [x + y] *)
Definition add (x y : Z) : Z := wrap (x + y).
(** [x - y] *)
Definition sub (x y : Z) : Z := wrap (x - y).
(** [x << k] *)
Definition shl (x k : Z) : Z := wrap (Z.shiftl x k).
(** [x >> k] *)
Definition shr (x k : Z) : Z := Z.shiftr x k.
(** a value used as a condition: non-zero is true *)
Definition truthy (x : Z) : bool := negb (x =? 0).
End Width.
End UInt.

(** ** The floating types and [TypeWithSize] *)

(** What the source asks of [RawType]: [sizeof(RawType)] and
    [std::numeric_limits<RawType>::digits]. *)
Record RawType : Set := { sizeof : Z; digits : Z }.

Definition float : RawType := {| sizeof := 4; digits := 24 |}.
Definition double : RawType := {| sizeof := 8; digits := 53 |}.

(** The types a [TypeWithSize<size>::UInt] can name. *)
Inductive UIntType : Set :=
  | void
  | unsigned_long_long.

(** Number of bits of an unsigned type; [void] has no values. *)
Definition width (t : UIntType) : option Z :=
  match t with
  | void => None
  | unsigned_long_long => Some 64
  end.

Module TypeWithSize.
(** The primary template names [void]; the only specialisation is for
    size 8. *)
Definition UInt (size : Z) : UIntType :=
  if size =? 8 then unsigned_long_long else void.
End TypeWithSize.

Definition DBL_DEFAULT_MAX_ULPS : Z := 10.

(** Both the primary template and the specialisation for [double] return
    the same constant. *)
Definition defaultMaxUlps (T : RawType) : Z := DBL_DEFAULT_MAX_ULPS.

(** ** [FloatingPoint<RawType>] *)

Module FloatingPoint.
Section Template.
Variable T : RawType.
(** Width of [Bits = TypeWithSize<sizeof(RawType)>::UInt]. *)
Variable W : Z.

Definition s_bitcount : Z := 8 * sizeof T.
Definition s_fraction_bitcount : Z := digits T - 1.
Definition s_exponent_bitcount : Z := s_bitcount - 1 - s_fraction_bitcount.

Definition s_sign_bitmask : Z := UInt.shl W 1 (s_bitcount - 1).
Definition s_fraction_bitmask : Z :=
  UInt.shr (UInt.lnot W 0) (s_exponent_bitcount + 1).
Definition s_exponent_bitmask : Z :=
  UInt.lnot W (Z.lor s_sign_bitmask s_fraction_bitmask).

Definition m_max_ulps : Z := defaultMaxUlps T.

Definition exponentBits (m_bits : Z) : Z := Z.land s_exponent_bitmask m_bits.
Definition fractionBits (m_bits : Z) : Z := Z.land s_fraction_bitmask m_bits.

Definition signAndMagnitudeToBiased (sam : Z) : Z :=
  if UInt.truthy (Z.land s_sign_bitmask sam)
  then UInt.add W (UInt.lnot W sam) 1
  else Z.lor s_sign_bitmask sam.

Definition distanceBetweenSignAndMagnitudeNumbers (sam1 sam2 : Z) : Z :=
  let biased1 := signAndMagnitudeToBiased sam1 in
  let biased2 := signAndMagnitudeToBiased sam2 in
  if biased1 >=? biased2
  then UInt.sub W biased1 biased2
  else UInt.sub W biased2 biased1.
End Template.
End FloatingPoint.

(** ** [isEqual] *)

(** [isEqual<RawType, max_ulps>(left, right)].  [left] and [right] are the
    storage of the two arguments; the instantiation is ill-formed when
    [Bits] is [void]. *)
Definition isEqual (T : RawType) (max_ulps : Z) (left right : Z) : option bool :=
  match width (TypeWithSize.UInt (sizeof T)) with
  | None => None
  | Some W =>
      let l_bits := left in
      let r_bits := right in
      let is_equal :=
        FloatingPoint.distanceBetweenSignAndMagnitudeNumbers T W l_bits r_bits
          <=? max_ulps in
      Some is_equal
  end.

(** The overload [isEqual<max_ulps>(const double&, const double&)]. *)
Definition isEqual_double (max_ulps : Z) (left right : Z) : option bool :=
  isEqual double max_ulps left right.

(** ** The IEEE-754 interchange format

    The source documents the layout of [Bits] as
    [sign_bit exponent_bits fraction_bits].  [decode] reads a bit pattern
    through the accessors of [FloatingPoint] and gives the number it encodes,
    as a [spec_float] of the standard library. *)

Module IEEE.
Section Format.
Variable T : RawType.
Variable W : Z.

Definition sign_bit (m_bits : Z) : bool :=
  UInt.truthy (Z.land (FloatingPoint.s_sign_bitmask T W) m_bits).

(** The exponent field, moved down to bit 0. *)
Definition biased_exponent (m_bits : Z) : Z :=
  UInt.shr (FloatingPoint.exponentBits T W m_bits)
           (FloatingPoint.s_fraction_bitcount T).

Definition bias : Z := 2 ^ (FloatingPoint.s_exponent_bitcount T - 1) - 1.

(** An exponent field of all ones encodes an infinity or a NaN. *)
Definition is_finite (m_bits : Z) : bool :=
  negb (FloatingPoint.exponentBits T W m_bits
          =? FloatingPoint.s_exponent_bitmask T W).

Definition decode (m_bits : Z) : spec_float :=
  let s := sign_bit m_bits in
  let E := biased_exponent m_bits in
  let F := FloatingPoint.fractionBits T W m_bits in
  let p := FloatingPoint.s_fraction_bitcount T in
  if is_finite m_bits then
    if E =? 0 then
      if F =? 0 then S754_zero s
      else S754_finite s (Z.to_pos F) (1 - bias - p)
    else S754_finite s (Z.to_pos (2 ^ p + F)) (E - bias - p)
  else
    if F =? 0 then S754_infinity s else S754_nan.
End Format.

(** The real number a [spec_float] stands for; an infinity or a NaN has
    none and is sent to 0. *)
Definition SF2Q (x : spec_float) : Q :=
  match x with
  | S754_zero _ => 0%Q
  | S754_finite s m e =>
      ((if s then (-1)%Q else 1%Q) * inject_Z (Z.pos m) * Qpower 2 e)%Q
  | S754_infinity _ | S754_nan => 0%Q
  end.

Definition value (T : RawType) (W : Z) (m_bits : Z) : Q :=
  SF2Q (decode T W m_bits).

(** A finite number counted in units of the smallest positive subnormal,
    [2 ^ (1 - bias - p)]: first the magnitude, from the pattern without
    its sign bit, then the signed count. *)
Definition scaled_magnitude (p : Z) (mag : Z) : Z :=
  let E := mag / 2 ^ p in
  let F := mag mod 2 ^ p in
  if E =? 0 then F else 2 ^ (E - 1) * (2 ^ p + F).

Definition scaled (T : RawType) (W : Z) (m_bits : Z) : Z :=
  let p := FloatingPoint.s_fraction_bitcount T in
  if 2 ^ (W - 1) <=? m_bits
  then - scaled_magnitude p (m_bits - 2 ^ (W - 1))
  else scaled_magnitude p m_bits.

(** Bit patterns of some doubles. *)
Definition pos_zero : Z := 0x0000000000000000.
Definition neg_zero : Z := 0x8000000000000000.
Definition one : Z := 0x3FF0000000000000.
Definition next_after_one : Z := 0x3FF0000000000001.
Definition minus_one : Z := 0xBFF0000000000000.
End IEEE.

(** ** Integers in sign-and-magnitude representation

    The comment of [signAndMagnitudeToBiased] reads a pattern as an integer
    in sign-and-magnitude representation: the top bit is the sign, the bits
    below it are the magnitude. *)

Module SignAndMagnitude.
Definition magnitude (W sam : Z) : Z := Z.land sam (Z.ones (W - 1)).

Definition to_Z (W sam : Z) : Z :=
  if Z.testbit sam (W - 1) then - magnitude W sam else magnitude W sam.
End SignAndMagnitude.

(** ** Checks of the embedding on [double] *)

Example double_bitcounts :
  FloatingPoint.s_bitcount double = 64 /\
  FloatingPoint.s_fraction_bitcount double = 52 /\
  FloatingPoint.s_exponent_bitcount double = 11.
Proof. repeat split. Qed.

Example double_masks :
  FloatingPoint.s_sign_bitmask double 64 = 0x8000000000000000 /\
  FloatingPoint.s_fraction_bitmask double 64 = 0x000FFFFFFFFFFFFF /\
  FloatingPoint.s_exponent_bitmask double 64 = 0x7FF0000000000000.
Proof. repeat split. Qed.

Example decode_constants :
  IEEE.decode double 64 IEEE.pos_zero = Prim2SF 0%float /\
  IEEE.decode double 64 IEEE.neg_zero = Prim2SF (-0)%float /\
  IEEE.decode double 64 IEEE.one = Prim2SF 1%float /\
  IEEE.decode double 64 IEEE.next_after_one = Prim2SF (next_up 1%float) /\
  IEEE.decode double 64 0x7FF0000000000000 = Prim2SF infinity /\
  IEEE.decode double 64 0xFFF0000000000000 = Prim2SF neg_infinity /\
  IEEE.decode double 64 0x7FF8000000000000 = Prim2SF nan /\
  IEEE.decode double 64 0x4000000000000000 = Prim2SF 2%float /\
  IEEE.decode double 64 IEEE.minus_one = Prim2SF (-1)%float /\
  IEEE.decode double 64 0xBFE0000000000000 = Prim2SF (-0.5)%float /\
  IEEE.decode double 64 0x0000000000000001 = Prim2SF (next_up 0%float).
Proof. vm_compute. repeat split. Qed.

Example isEqual_scenarios :
  isEqual double 10 IEEE.one (IEEE.one + 9) = Some true /\
  isEqual double 10 IEEE.one (IEEE.one + 11) = Some false /\
  isEqual double 10 IEEE.one 0x4000000000000000 = Some false /\
  isEqual double 0 IEEE.minus_one IEEE.minus_one = Some true /\
  isEqual double (defaultMaxUlps double) IEEE.one IEEE.minus_one = Some false.
Proof. repeat split. Qed.

(** ** Arithmetic of the fixed-width operators *)

Section UIntFacts.
Variable W : Z.
Hypothesis W_pos : 0 < W.

Lemma pow2_W_split : 2 ^ W = 2 * 2 ^ (W - 1) /\ 0 < 2 ^ (W - 1).
Proof.
  split.
  - rewrite <- Z.pow_succ_r by lia. f_equal. lia.
  - apply Z.pow_pos_nonneg; lia.
Qed.

Lemma lnot_closed (x : Z) :
  UInt.in_range W x -> UInt.lnot W x = 2 ^ W - 1 - x.
Proof.
  unfold UInt.in_range, UInt.lnot, UInt.wrap. intros Hx.
  assert (E : Z.lnot x = - x - 1) by (pose proof (Z.add_lnot_diag x); lia).
  rewrite E.
  replace (- x - 1) with ((2 ^ W - 1 - x) + (-1) * 2 ^ W) by lia.
  rewrite Z.mod_add by lia.
  apply Z.mod_small. lia.
Qed.

Lemma land_pow2 (k x : Z) :
  0 <= k -> Z.land (2 ^ k) x = if Z.testbit x k then 2 ^ k else 0.
Proof.
  intros Hk. apply Z.bits_inj'. intros n Hn.
  rewrite Z.land_spec, Z.pow2_bits_eqb by assumption.
  destruct (Z.eqb_spec k n) as [->|Hne].
  - destruct (Z.testbit x n); simpl.
    + now rewrite Z.pow2_bits_true.
    + now rewrite Z.bits_0.
  - simpl. destruct (Z.testbit x k).
    + now rewrite Z.pow2_bits_false.
    + now rewrite Z.bits_0.
Qed.

Lemma top_bit (x : Z) :
  UInt.in_range W x -> Z.testbit x (W - 1) = (2 ^ (W - 1) <=? x).
Proof.
  unfold UInt.in_range. intros Hx.
  destruct pow2_W_split as [HW Hp].
  destruct (Z.leb_spec (2 ^ (W - 1)) x) as [Hle|Hlt].
  - apply Z.testbit_true; [lia|].
    assert (x / 2 ^ (W - 1) = 1) as ->; [|reflexivity].
    symmetry. apply (Z.div_unique x (2 ^ (W - 1)) 1 (x - 2 ^ (W - 1))); lia.
  - apply Z.testbit_false; [lia|].
    rewrite Z.div_small by lia. reflexivity.
Qed.

Lemma lor_top_bit (x : Z) :
  0 <= x < 2 ^ (W - 1) -> Z.lor (2 ^ (W - 1)) x = 2 ^ (W - 1) + x.
Proof.
  intros Hx. destruct pow2_W_split as [HW Hp].
  pose proof (Z.add_lor_land (2 ^ (W - 1)) x) as E.
  rewrite land_pow2 in E by lia.
  rewrite top_bit in E by (unfold UInt.in_range; lia).
  destruct (Z.leb_spec (2 ^ (W - 1)) x); lia.
Qed.
End UIntFacts.

(** ** Closed forms of the functions of [FloatingPoint] *)

Section Biased.
Variable T : RawType.
Variable W : Z.
Hypothesis W_pos : 0 < W.
Hypothesis W_bitcount : FloatingPoint.s_bitcount T = W.

Let N : Z := 2 ^ (W - 1).

Lemma sign_bitmask_closed : FloatingPoint.s_sign_bitmask T W = N.
Proof.
  unfold FloatingPoint.s_sign_bitmask, UInt.shl, UInt.wrap.
  rewrite W_bitcount, Z.shiftl_1_l.
  destruct (pow2_W_split W W_pos). apply Z.mod_small. lia.
Qed.

Lemma sign_test_closed (sam : Z) :
  UInt.in_range W sam ->
  UInt.truthy (Z.land (FloatingPoint.s_sign_bitmask T W) sam) = (N <=? sam).
Proof.
  intros Hs. rewrite sign_bitmask_closed. unfold N, UInt.truthy.
  rewrite land_pow2, top_bit by (assumption || lia).
  destruct (pow2_W_split W W_pos).
  destruct (2 ^ (W - 1) <=? sam); simpl; [|reflexivity].
  destruct (Z.eqb_spec (2 ^ (W - 1)) 0); [lia|reflexivity].
Qed.

Lemma biased_closed (sam : Z) :
  UInt.in_range W sam ->
  FloatingPoint.signAndMagnitudeToBiased T W sam =
    if N <=? sam then 2 * N - sam else N + sam.
Proof.
  intros Hs. unfold FloatingPoint.signAndMagnitudeToBiased.
  rewrite sign_test_closed by assumption.
  destruct (pow2_W_split W W_pos) as [HW Hp]. fold N in HW, Hp.
  pose proof Hs as Hs'. unfold UInt.in_range in Hs'.
  destruct (Z.leb_spec N sam) as [Hle|Hlt].
  - rewrite lnot_closed by assumption.
    unfold UInt.add, UInt.wrap.
    replace (2 ^ W - 1 - sam + 1) with (2 * N - sam) by lia.
    apply Z.mod_small. lia.
  - rewrite sign_bitmask_closed. apply lor_top_bit; [assumption|]. fold N. lia.
Qed.

Lemma biased_range (sam : Z) :
  UInt.in_range W sam ->
  0 < FloatingPoint.signAndMagnitudeToBiased T W sam < 2 ^ W.
Proof.
  intros Hs. rewrite biased_closed by assumption.
  destruct (pow2_W_split W W_pos) as [HW Hp]. fold N in HW, Hp.
  unfold UInt.in_range in Hs.
  destruct (Z.leb_spec N sam); lia.
Qed.

Lemma distance_closed (sam1 sam2 : Z) :
  UInt.in_range W sam1 -> UInt.in_range W sam2 ->
  FloatingPoint.distanceBetweenSignAndMagnitudeNumbers T W sam1 sam2 =
    Z.abs (FloatingPoint.signAndMagnitudeToBiased T W sam1
           - FloatingPoint.signAndMagnitudeToBiased T W sam2).
Proof.
  intros H1 H2. unfold FloatingPoint.distanceBetweenSignAndMagnitudeNumbers.
  pose proof (biased_range sam1 H1). pose proof (biased_range sam2 H2).
  cbv zeta. unfold UInt.sub, UInt.wrap.
  destruct (Z.geb_spec (FloatingPoint.signAndMagnitudeToBiased T W sam1)
                       (FloatingPoint.signAndMagnitudeToBiased T W sam2)).
  - rewrite Z.mod_small by lia. lia.
  - rewrite Z.mod_small by lia. lia.
Qed.
End Biased.

(** ** The fields of a bit pattern *)

Section Fields.
Variable T : RawType.
Variable W : Z.
Hypothesis W_bitcount : FloatingPoint.s_bitcount T = W.
Hypothesis fraction_pos : 0 < FloatingPoint.s_fraction_bitcount T.
Hypothesis exponent_pos : 0 < FloatingPoint.s_exponent_bitcount T.

Let p : Z := FloatingPoint.s_fraction_bitcount T.
Let q : Z := FloatingPoint.s_exponent_bitcount T.
Let N : Z := 2 ^ (W - 1).

Lemma W_split : W = 1 + q + p.
Proof.
  unfold p, q, FloatingPoint.s_exponent_bitcount. lia.
Qed.

Lemma W_pos_of_fields : 0 < W.
Proof. pose proof W_split. unfold p, q in *. lia. Qed.

Lemma N_split : N = 2 ^ q * 2 ^ p /\ 0 < 2 ^ p /\ 1 < 2 ^ q.
Proof.
  pose proof W_split as HW. unfold N. repeat split.
  - rewrite <- Z.pow_add_r by (unfold p, q; lia). f_equal. lia.
  - apply Z.pow_pos_nonneg; unfold p; lia.
  - apply Z.pow_gt_1; unfold q; lia.
Qed.

Lemma fraction_bitmask_closed : FloatingPoint.s_fraction_bitmask T W = Z.ones p.
Proof.
  pose proof W_split as HW. pose proof W_pos_of_fields as HWp.
  unfold FloatingPoint.s_fraction_bitmask, UInt.shr.
  rewrite lnot_closed by (unfold UInt.in_range; destruct (pow2_W_split W HWp); lia).
  replace (2 ^ W - 1 - 0) with (Z.ones W) by (rewrite Z.ones_equiv; lia).
  fold q. rewrite Z.shiftr_div_pow2 by (unfold q; lia).
  rewrite Z.ones_div_pow2 by (unfold p, q in *; lia).
  f_equal. lia.
Qed.

Lemma fractionBits_closed (m_bits : Z) :
  FloatingPoint.fractionBits T W m_bits = m_bits mod 2 ^ p.
Proof.
  unfold FloatingPoint.fractionBits.
  rewrite fraction_bitmask_closed, Z.land_comm.
  apply Z.land_ones. unfold p. lia.
Qed.

Lemma exponent_bitmask_closed :
  FloatingPoint.s_exponent_bitmask T W = Z.shiftl (Z.ones q) p.
Proof.
  pose proof W_split as HW. pose proof W_pos_of_fields as HWp.
  destruct N_split as (HN & Hp & Hq).
  destruct (pow2_W_split W HWp) as [H2 HNp]. fold N in H2, HNp.
  unfold FloatingPoint.s_exponent_bitmask.
  rewrite (sign_bitmask_closed T W HWp W_bitcount), fraction_bitmask_closed.
  rewrite Z.ones_equiv.
  rewrite lor_top_bit by (fold N; nia).
  rewrite lnot_closed by (unfold UInt.in_range; fold N; nia).
  rewrite Z.shiftl_mul_pow2 by (unfold p; lia).
  rewrite Z.ones_equiv. fold N. lia.
Qed.

Lemma exponentBits_bits (m_bits n : Z) :
  0 <= n ->
  Z.testbit (FloatingPoint.exponentBits T W m_bits) n =
    (p <=? n) && (n <? W - 1) && Z.testbit m_bits n.
Proof.
  intros Hn. pose proof W_split as HW.
  unfold FloatingPoint.exponentBits.
  rewrite exponent_bitmask_closed, Z.land_spec.
  destruct (Z.leb_spec p n) as [Hpn|Hpn].
  - rewrite Z.shiftl_spec_high by (unfold p in *; lia).
    rewrite Z.testbit_ones_nonneg by (unfold q in *; lia).
    replace (n - p <? q) with (n <? W - 1); [reflexivity|].
    destruct (Z.ltb_spec n (W - 1)), (Z.ltb_spec (n - p) q); lia.
  - rewrite Z.shiftl_spec_low by assumption. reflexivity.
Qed.

Lemma biased_exponent_closed (m_bits : Z) :
  IEEE.biased_exponent T W m_bits = (m_bits mod N) / 2 ^ p.
Proof.
  pose proof W_split as HW.
  unfold IEEE.biased_exponent, UInt.shr. fold p.
  rewrite <- Z.shiftr_div_pow2 by (unfold p; lia).
  apply Z.bits_inj'. intros n Hn.
  rewrite !Z.shiftr_spec by assumption.
  rewrite exponentBits_bits by (unfold p in *; lia).
  unfold N. rewrite Z.testbit_mod_pow2 by (unfold p, q in *; lia).
  destruct (Z.leb_spec p (n + p)); [|lia]. simpl.
  reflexivity.
Qed.

Lemma exponentBits_closed (m_bits : Z) :
  FloatingPoint.exponentBits T W m_bits =
    IEEE.biased_exponent T W m_bits * 2 ^ p.
Proof.
  pose proof W_split as HW.
  rewrite <- Z.shiftl_mul_pow2 by (unfold p; lia).
  apply Z.bits_inj'. intros n Hn.
  rewrite exponentBits_bits by assumption.
  destruct (Z.leb_spec p n) as [Hpn|Hpn].
  - rewrite Z.shiftl_spec_high by (unfold p in *; lia).
    unfold IEEE.biased_exponent, UInt.shr. fold p.
    rewrite Z.shiftr_spec by lia.
    rewrite exponentBits_bits by lia.
    replace (n - p + p) with n by lia.
    destruct (Z.leb_spec p n); [|lia]. simpl.
    destruct (n <? W - 1); reflexivity.
  - rewrite Z.shiftl_spec_low by assumption. reflexivity.
Qed.

Lemma is_finite_closed (m_bits : Z) :
  IEEE.is_finite T W m_bits =
    negb (IEEE.biased_exponent T W m_bits =? 2 ^ q - 1).
Proof.
  destruct N_split as (HN & Hp & Hq).
  unfold IEEE.is_finite. f_equal.
  rewrite exponentBits_closed, exponent_bitmask_closed.
  rewrite Z.shiftl_mul_pow2 by (unfold p; lia).
  rewrite Z.ones_equiv.
  destruct (Z.eqb_spec (IEEE.biased_exponent T W m_bits) (2 ^ q - 1)) as [E|E].
  - rewrite E. apply Z.eqb_eq. lia.
  - apply Z.eqb_neq. nia.
Qed.
End Fields.

(** ** The value of a finite bit pattern *)

Lemma Qpow2_shift (e K : Z) : (Qpower 2 (e - K) * Qpower 2 K == Qpower 2 e)%Q.
Proof.
  rewrite <- Qpower_plus by discriminate.
  replace (e - K + K) with e by lia. reflexivity.
Qed.

Lemma SF2Q_finite_scaled (s : bool) (m e' K : Z) :
  0 < m -> 0 <= e' ->
  (IEEE.SF2Q (S754_finite s (Z.to_pos m) (e' - K)) * Qpower 2 K
   == inject_Z ((if s then -1 else 1) * (2 ^ e' * m)))%Q.
Proof.
  intros Hm He. unfold IEEE.SF2Q.
  rewrite Z2Pos.id by assumption.
  rewrite <- Qmult_assoc, Qpow2_shift.
  rewrite !inject_Z_mult, Zpower_Qpower by assumption.
  change (inject_Z 2) with 2%Q. generalize (Qpower 2 e'). intros P.
  destruct s; [change (inject_Z (-1)) with (-1)%Q|change (inject_Z 1) with 1%Q];
    ring.
Qed.

Section Value.
Variable T : RawType.
Variable W : Z.
Hypothesis W_bitcount : FloatingPoint.s_bitcount T = W.
Hypothesis fraction_pos : 0 < FloatingPoint.s_fraction_bitcount T.
Hypothesis exponent_pos : 0 < FloatingPoint.s_exponent_bitcount T.

Let p : Z := FloatingPoint.s_fraction_bitcount T.
Let N : Z := 2 ^ (W - 1).
(** The values are counted in units of [2 ^ (- K)]. *)
Let K : Z := IEEE.bias T + p - 1.

Lemma magnitude_closed (m_bits : Z) :
  UInt.in_range W m_bits ->
  m_bits mod N = if N <=? m_bits then m_bits - N else m_bits.
Proof.
  intros Hm. unfold UInt.in_range in Hm.
  pose proof (W_pos_of_fields T W W_bitcount fraction_pos exponent_pos) as HWp.
  destruct (pow2_W_split W HWp) as [H2 HNp]. fold N in H2, HNp.
  destruct (Z.leb_spec N m_bits).
  - symmetry. apply (Z.mod_unique_pos m_bits N 1); lia.
  - apply Z.mod_small. lia.
Qed.

Lemma fraction_of_magnitude (m_bits : Z) :
  (m_bits mod N) mod 2 ^ p = m_bits mod 2 ^ p.
Proof.
  destruct (N_split T W W_bitcount fraction_pos exponent_pos) as (HN & Hp & Hq).
  fold N p in HN, Hp.
  rewrite HN, Z.mul_comm, Z.rem_mul_r by lia.
  rewrite Z.mul_comm, Z.mod_add by lia.
  apply Z.mod_mod. lia.
Qed.

Lemma value_scaled (m_bits : Z) :
  UInt.in_range W m_bits ->
  IEEE.is_finite T W m_bits = true ->
  (IEEE.value T W m_bits * Qpower 2 K == inject_Z (IEEE.scaled T W m_bits))%Q.
Proof.
  intros Hm Hfin.
  pose proof (W_pos_of_fields T W W_bitcount fraction_pos exponent_pos) as HWp.
  destruct (N_split T W W_bitcount fraction_pos exponent_pos) as (HN & Hp & Hq).
  fold N p in HN, Hp.
  unfold IEEE.value, IEEE.decode. rewrite Hfin. cbv zeta.
  unfold IEEE.sign_bit.
  rewrite (sign_test_closed T W HWp W_bitcount) by assumption.
  rewrite (biased_exponent_closed T W W_bitcount fraction_pos exponent_pos).
  rewrite (fractionBits_closed T W W_bitcount fraction_pos exponent_pos).
  fold N p. rewrite <- (fraction_of_magnitude m_bits).
  unfold IEEE.scaled. fold p N.
  rewrite (magnitude_closed m_bits Hm).
  set (mag := if N <=? m_bits then m_bits - N else m_bits).
  assert (Hmag : 0 <= mag).
  { unfold mag, UInt.in_range in *. destruct (Z.leb_spec N m_bits); lia. }
  assert (Hsc : IEEE.scaled_magnitude p mag =
                if N <=? m_bits then IEEE.scaled_magnitude p (m_bits - N)
                else IEEE.scaled_magnitude p m_bits).
  { unfold mag. destruct (N <=? m_bits); reflexivity. }
  assert (Hgoal : (if N <=? m_bits then - IEEE.scaled_magnitude p (m_bits - N)
                   else IEEE.scaled_magnitude p m_bits)
                  = (if N <=? m_bits then -1 else 1) * IEEE.scaled_magnitude p mag).
  { rewrite Hsc. destruct (N <=? m_bits); lia. }
  rewrite Hgoal. clear Hgoal Hsc.
  unfold IEEE.scaled_magnitude. cbv zeta.
  pose proof (Z.mod_pos_bound mag (2 ^ p) Hp) as HF.
  pose proof (Z.div_pos mag (2 ^ p) Hmag Hp) as HE.
  destruct (Z.eqb_spec (mag / 2 ^ p) 0) as [E0|E0].
  - destruct (Z.eqb_spec (mag mod 2 ^ p) 0) as [F0|F0].
    + rewrite F0. simpl IEEE.SF2Q. rewrite Z.mul_0_r. ring.
    + replace (1 - IEEE.bias T - p) with (0 - K) by (unfold K; lia).
      rewrite SF2Q_finite_scaled by lia.
      rewrite Z.pow_0_r, Z.mul_1_l. reflexivity.
  - replace (mag / 2 ^ p - IEEE.bias T - p) with (mag / 2 ^ p - 1 - K)
      by (unfold K; lia).
    rewrite SF2Q_finite_scaled by lia.
    reflexivity.
Qed.

Lemma value_le_scaled (a b : Z) :
  UInt.in_range W a -> UInt.in_range W b ->
  IEEE.is_finite T W a = true -> IEEE.is_finite T W b = true ->
  (IEEE.value T W a <= IEEE.value T W b)%Q <->
  IEEE.scaled T W a <= IEEE.scaled T W b.
Proof.
  intros Ha Hb Fa Fb.
  rewrite Zle_Qle.
  rewrite <- (value_scaled a Ha Fa), <- (value_scaled b Hb Fb).
  symmetry. apply Qmult_le_r. apply Qpower_0_lt. reflexivity.
Qed.
End Value.

(** ** The biased representation follows the order of the values *)

Lemma scaled_magnitude_0 (p : Z) : 0 <= p -> IEEE.scaled_magnitude p 0 = 0.
Proof.
  intros Hp. unfold IEEE.scaled_magnitude.
  rewrite Z.div_0_l, Z.mod_0_l by (apply Z.pow_nonzero; lia).
  reflexivity.
Qed.

Lemma scaled_magnitude_mono (p m1 m2 : Z) :
  0 <= p -> 0 <= m1 < m2 ->
  IEEE.scaled_magnitude p m1 < IEEE.scaled_magnitude p m2.
Proof.
  intros Hp Hm.
  assert (Hpp : 0 < 2 ^ p) by (apply Z.pow_pos_nonneg; lia).
  unfold IEEE.scaled_magnitude. cbv zeta.
  pose proof (Z.div_mod m1 (2 ^ p) ltac:(lia)) as D1.
  pose proof (Z.div_mod m2 (2 ^ p) ltac:(lia)) as D2.
  pose proof (Z.mod_pos_bound m1 (2 ^ p) Hpp) as B1.
  pose proof (Z.mod_pos_bound m2 (2 ^ p) Hpp) as B2.
  assert (HE1 : 0 <= m1 / 2 ^ p) by (apply Z.div_pos; lia).
  assert (HE : m1 / 2 ^ p <= m2 / 2 ^ p) by (apply Z.div_le_mono; lia).
  set (E1 := m1 / 2 ^ p) in *. set (E2 := m2 / 2 ^ p) in *.
  set (F1 := m1 mod 2 ^ p) in *. set (F2 := m2 mod 2 ^ p) in *.
  destruct (Z.eqb_spec E1 0) as [Z1|Z1], (Z.eqb_spec E2 0) as [Z2|Z2].
  - nia.
  - assert (0 < 2 ^ (E2 - 1)) by (apply Z.pow_pos_nonneg; lia). nia.
  - lia.
  - assert (H1 : 0 < 2 ^ (E1 - 1)) by (apply Z.pow_pos_nonneg; lia).
    destruct (Z.eq_dec E1 E2) as [Heq|Hne].
    + rewrite <- Heq. nia.
    + assert (H2 : 2 ^ E1 <= 2 ^ (E2 - 1)) by (apply Z.pow_le_mono_r; lia).
      assert (H3 : 2 ^ E1 = 2 * 2 ^ (E1 - 1)).
      { rewrite <- Z.pow_succ_r by lia. f_equal. lia. }
      nia.
Qed.

Lemma scaled_magnitude_le_iff (p m1 m2 : Z) :
  0 <= p -> 0 <= m1 -> 0 <= m2 ->
  (m1 <= m2 <-> IEEE.scaled_magnitude p m1 <= IEEE.scaled_magnitude p m2).
Proof.
  intros Hp H1 H2. split; intros H.
  - destruct (Z.eq_dec m1 m2) as [->|Hne]; [lia|].
    pose proof (scaled_magnitude_mono p m1 m2 Hp). lia.
  - destruct (Z.le_gt_cases m1 m2) as [|Hgt]; [assumption|].
    pose proof (scaled_magnitude_mono p m2 m1 Hp). lia.
Qed.

Section Order.
Variable T : RawType.
Variable W : Z.
Hypothesis W_bitcount : FloatingPoint.s_bitcount T = W.
Hypothesis fraction_pos : 0 < FloatingPoint.s_fraction_bitcount T.
Hypothesis exponent_pos : 0 < FloatingPoint.s_exponent_bitcount T.

Lemma biased_le_scaled (a b : Z) :
  UInt.in_range W a -> UInt.in_range W b ->
  (FloatingPoint.signAndMagnitudeToBiased T W a
     <= FloatingPoint.signAndMagnitudeToBiased T W b
   <-> IEEE.scaled T W a <= IEEE.scaled T W b).
Proof.
  intros Ha Hb.
  pose proof (W_pos_of_fields T W W_bitcount fraction_pos exponent_pos) as HWp.
  destruct (pow2_W_split W HWp) as [H2 HNp].
  rewrite !(biased_closed T W HWp W_bitcount) by assumption.
  unfold IEEE.scaled. cbv zeta. unfold UInt.in_range in Ha, Hb.
  set (p := FloatingPoint.s_fraction_bitcount T) in *.
  set (N := 2 ^ (W - 1)) in *.
  assert (Hp : 0 <= p) by lia.
  pose proof (scaled_magnitude_0 p Hp) as S0.
  destruct (Z.leb_spec N a) as [La|La], (Z.leb_spec N b) as [Lb|Lb].
  - pose proof (scaled_magnitude_le_iff p (b - N) (a - N) Hp). lia.
  - pose proof (scaled_magnitude_le_iff p 0 (a - N) Hp).
    pose proof (scaled_magnitude_le_iff p 0 b Hp). lia.
  - pose proof (scaled_magnitude_le_iff p 0 a Hp).
    pose proof (scaled_magnitude_le_iff p 0 (b - N) Hp).
    pose proof (scaled_magnitude_le_iff p a 0 Hp).
    pose proof (scaled_magnitude_le_iff p (b - N) 0 Hp). lia.
  - pose proof (scaled_magnitude_le_iff p a b Hp). lia.
Qed.

Lemma biased_le_value (a b : Z) :
  UInt.in_range W a -> UInt.in_range W b ->
  IEEE.is_finite T W a = true -> IEEE.is_finite T W b = true ->
  (FloatingPoint.signAndMagnitudeToBiased T W a
     <= FloatingPoint.signAndMagnitudeToBiased T W b
   <-> (IEEE.value T W a <= IEEE.value T W b)%Q).
Proof.
  intros Ha Hb Fa Fb.
  rewrite (value_le_scaled T W W_bitcount fraction_pos exponent_pos) by assumption.
  apply biased_le_scaled; assumption.
Qed.
End Order.

(** ** Instantiation of [isEqual] *)

Lemma isEqual_instantiated (T : RawType) (max_ulps left right : Z) :
  sizeof T = 8 ->
  isEqual T max_ulps left right =
    Some (FloatingPoint.distanceBetweenSignAndMagnitudeNumbers T 64 left right
            <=? max_ulps).
Proof.
  intros H. unfold isEqual, TypeWithSize.UInt. rewrite H. reflexivity.
Qed.

Lemma isEqual_rejected (T : RawType) (max_ulps left right : Z) :
  sizeof T <> 8 -> isEqual T max_ulps left right = None.
Proof.
  intros H. unfold isEqual, TypeWithSize.UInt.
  destruct (Z.eqb_spec (sizeof T) 8); [contradiction|reflexivity].
Qed.

Lemma width_bitcount (T : RawType) (W : Z) :
  width (TypeWithSize.UInt (sizeof T)) = Some W ->
  sizeof T = 8 /\ W = 64 /\ FloatingPoint.s_bitcount T = W.
Proof.
  unfold TypeWithSize.UInt, FloatingPoint.s_bitcount.
  destruct (Z.eqb_spec (sizeof T) 8) as [E|E]; simpl; intros H.
  - injection H as <-. rewrite E. repeat split.
  - discriminate.
Qed.

(** ** The zero patterns *)

Section Zeros.
Variable T : RawType.
Variable W : Z.
Hypothesis W_bitcount : FloatingPoint.s_bitcount T = W.
Hypothesis fraction_pos : 0 < FloatingPoint.s_fraction_bitcount T.
Hypothesis exponent_pos : 0 < FloatingPoint.s_exponent_bitcount T.

Lemma decode_zeros :
  IEEE.decode T W 0 = S754_zero false /\
  IEEE.decode T W (2 ^ (W - 1)) = S754_zero true.
Proof.
  pose proof (W_pos_of_fields T W W_bitcount fraction_pos exponent_pos) as HWp.
  destruct (N_split T W W_bitcount fraction_pos exponent_pos) as (HN & Hp & Hq).
  destruct (pow2_W_split W HWp) as [H2 HNp].
  assert (R0 : UInt.in_range W 0) by (unfold UInt.in_range; lia).
  assert (RN : UInt.in_range W (2 ^ (W - 1))) by (unfold UInt.in_range; lia).
  unfold IEEE.decode, IEEE.sign_bit. cbv zeta.
  rewrite !(is_finite_closed T W W_bitcount fraction_pos exponent_pos).
  rewrite !(biased_exponent_closed T W W_bitcount fraction_pos exponent_pos).
  rewrite !(fractionBits_closed T W W_bitcount fraction_pos exponent_pos).
  rewrite !(sign_test_closed T W HWp W_bitcount) by assumption.
  assert (FN : 2 ^ (W - 1) mod 2 ^ FloatingPoint.s_fraction_bitcount T = 0)
    by (rewrite HN; apply Z.mod_mul; lia).
  rewrite FN, Z.mod_same, !Z.mod_0_l, Z.div_0_l by lia.
  destruct (Z.eqb_spec 0 (2 ^ FloatingPoint.s_exponent_bitcount T - 1)); [lia|].
  simpl. rewrite Z.leb_refl.
  destruct (Z.leb_spec (2 ^ (W - 1)) 0); [lia|]. split; reflexivity.
Qed.
End Zeros.

(** ** Properties of the comparison *)

(** C1: what the instantiation does at the two documented widths.  The
    specialisation of [TypeWithSize] for size 4 is absent, so [Bits] is
    [void] for [float] and [isEqual<float>] is ill-formed; for [double] the
    instantiation exists; any other size is rejected in the same way. *)
Theorem isEqual_float_rejected :
  TypeWithSize.UInt (sizeof float) = void /\
  (forall max_ulps left right, isEqual float max_ulps left right = None) /\
  (forall max_ulps left right, isEqual double max_ulps left right <> None) /\
  (forall T max_ulps left right,
      isEqual T max_ulps left right = None <-> sizeof T <> 8).
Proof.
  repeat split.
  - intros. rewrite isEqual_instantiated by reflexivity. discriminate.
  - intros H E. rewrite isEqual_instantiated in H by assumption. discriminate.
  - apply isEqual_rejected.
Qed.

(** C2: [isEqual] is true exactly when the distance between the two biased
    patterns is at most [max_ulps]; the distance is the larger biased value
    minus the smaller, so the subtraction of the source never wraps: it is
    the exact, non-negative difference. *)
Theorem isEqual_iff_distance (T : RawType) (W max_ulps left right : Z) :
  width (TypeWithSize.UInt (sizeof T)) = Some W ->
  UInt.in_range W left -> UInt.in_range W right ->
  let biased1 := FloatingPoint.signAndMagnitudeToBiased T W left in
  let biased2 := FloatingPoint.signAndMagnitudeToBiased T W right in
  let distance :=
    if biased1 >=? biased2 then biased1 - biased2 else biased2 - biased1 in
  0 <= distance < 2 ^ W /\
  FloatingPoint.distanceBetweenSignAndMagnitudeNumbers T W left right = distance /\
  (isEqual T max_ulps left right = Some true <-> distance <= max_ulps) /\
  (isEqual T max_ulps left right = Some false <-> max_ulps < distance).
Proof.
  intros HW Hl Hr. destruct (width_bitcount T W HW) as (Hs & -> & Hb).
  intros biased1 biased2 distance.
  pose proof (biased_range T 64 ltac:(lia) Hb left Hl) as B1.
  pose proof (biased_range T 64 ltac:(lia) Hb right Hr) as B2.
  fold biased1 in B1. fold biased2 in B2.
  assert (Hd : 0 <= distance < 2 ^ 64).
  { unfold distance. destruct (Z.geb_spec biased1 biased2); lia. }
  assert (Hdist :
    FloatingPoint.distanceBetweenSignAndMagnitudeNumbers T 64 left right
    = distance).
  { unfold FloatingPoint.distanceBetweenSignAndMagnitudeNumbers. cbv zeta.
    fold biased1 biased2. unfold distance, UInt.sub, UInt.wrap.
    destruct (biased1 >=? biased2); apply Z.mod_small;
      unfold distance in Hd; destruct (Z.geb_spec biased1 biased2); lia. }
  rewrite isEqual_instantiated, Hdist by assumption.
  repeat split; try lia.
  - intros H. injection H as H. apply Z.leb_le. assumption.
  - intros H. f_equal. apply Z.leb_le. assumption.
  - intros H. injection H as H. apply Z.leb_gt. assumption.
  - intros H. f_equal. apply Z.leb_gt. assumption.
Qed.

(** C3: on a pattern whose sign bit is set, [signAndMagnitudeToBiased] is
    the two's-complement negation in the width of [Bits] (bitwise NOT,
    plus one, modulo [2 ^ W]); on a pattern whose sign bit is clear it is
    the pattern with the sign-mask bit forced on. *)
Theorem signAndMagnitudeToBiased_cases (T : RawType) (W sam : Z) :
  0 < W -> FloatingPoint.s_bitcount T = W -> UInt.in_range W sam ->
  FloatingPoint.s_sign_bitmask T W = 2 ^ (W - 1) /\
  (Z.testbit sam (W - 1) = true ->
     FloatingPoint.signAndMagnitudeToBiased T W sam
       = (Z.lnot sam + 1) mod 2 ^ W /\
     FloatingPoint.signAndMagnitudeToBiased T W sam = (- sam) mod 2 ^ W) /\
  (Z.testbit sam (W - 1) = false ->
     FloatingPoint.signAndMagnitudeToBiased T W sam
       = Z.lor (FloatingPoint.s_sign_bitmask T W) sam /\
     FloatingPoint.signAndMagnitudeToBiased T W sam = 2 ^ (W - 1) + sam).
Proof.
  intros HWp Hb Hs.
  pose proof (sign_test_closed T W HWp Hb sam Hs) as Ht.
  rewrite <- top_bit in Ht by assumption.
  pose proof (sign_bitmask_closed T W HWp Hb) as Hm.
  pose proof (biased_closed T W HWp Hb sam Hs) as Hc.
  rewrite <- top_bit in Hc by assumption.
  destruct (pow2_W_split W HWp) as [H2 HNp].
  assert (En : Z.lnot sam + 1 = - sam)
    by (pose proof (Z.add_lnot_diag sam); lia).
  split; [assumption|]. split; intros Hbit.
  - unfold FloatingPoint.signAndMagnitudeToBiased.
    rewrite Ht, Hbit. unfold UInt.add, UInt.lnot, UInt.wrap.
    rewrite Z.add_mod_idemp_l by lia.
    rewrite En. split; reflexivity.
  - split.
    + unfold FloatingPoint.signAndMagnitudeToBiased.
      rewrite Ht, Hbit. reflexivity.
    + rewrite Hc, Hbit. reflexivity.
Qed.

(** C4: the biasing preserves the order of the finite values: the biased
    pattern of [a] is at least that of [b] exactly when the number [a]
    encodes is at least the number [b] encodes; patterns of equal value
    have equal biased patterns, and the two zero patterns are both sent to
    [2 ^ (W - 1)]. *)
Theorem biased_order_preserving (T : RawType) (W a b : Z) :
  FloatingPoint.s_bitcount T = W ->
  0 < FloatingPoint.s_fraction_bitcount T ->
  0 < FloatingPoint.s_exponent_bitcount T ->
  UInt.in_range W a -> UInt.in_range W b ->
  IEEE.is_finite T W a = true -> IEEE.is_finite T W b = true ->
  (FloatingPoint.signAndMagnitudeToBiased T W a
     >= FloatingPoint.signAndMagnitudeToBiased T W b
   <-> (IEEE.value T W b <= IEEE.value T W a)%Q) /\
  ((IEEE.value T W a == IEEE.value T W b)%Q ->
   FloatingPoint.signAndMagnitudeToBiased T W a
     = FloatingPoint.signAndMagnitudeToBiased T W b) /\
  (IEEE.decode T W 0 = S754_zero false /\
   IEEE.decode T W (2 ^ (W - 1)) = S754_zero true /\
   FloatingPoint.signAndMagnitudeToBiased T W 0 = 2 ^ (W - 1) /\
   FloatingPoint.signAndMagnitudeToBiased T W (2 ^ (W - 1)) = 2 ^ (W - 1)).
Proof.
  intros Hb Hf He Ra Rb Fa Fb.
  pose proof (biased_le_value T W Hb Hf He b a Rb Ra Fb Fa) as Hba.
  pose proof (biased_le_value T W Hb Hf He a b Ra Rb Fa Fb) as Hab.
  pose proof (W_pos_of_fields T W Hb Hf He) as HWp.
  destruct (pow2_W_split W HWp) as [H2 HNp].
  split; [|split].
  - rewrite <- Hba. lia.
  - intros Heq.
    assert (L1 : (IEEE.value T W a <= IEEE.value T W b)%Q)
      by (rewrite Heq; apply Qle_refl).
    assert (L2 : (IEEE.value T W b <= IEEE.value T W a)%Q)
      by (rewrite Heq; apply Qle_refl).
    apply Hab in L1. apply Hba in L2. lia.
  - destruct (decode_zeros T W Hb Hf He) as [D0 DN].
    repeat split; try assumption.
    + rewrite (biased_closed T W HWp Hb) by (unfold UInt.in_range; lia).
      destruct (Z.leb_spec (2 ^ (W - 1)) 0); lia.
    + rewrite (biased_closed T W HWp Hb) by (unfold UInt.in_range; lia).
      rewrite Z.leb_refl. lia.
Qed.

(** C6: for [double], +0.0 and -0.0 have the same biased pattern, so
    [isEqual] holds of them for every tolerance from 0 up. *)
Theorem isEqual_signed_zeros (max_ulps : Z) :
  0 <= max_ulps ->
  FloatingPoint.signAndMagnitudeToBiased double 64 IEEE.pos_zero
    = FloatingPoint.signAndMagnitudeToBiased double 64 IEEE.neg_zero /\
  isEqual double max_ulps IEEE.pos_zero IEEE.neg_zero = Some true /\
  isEqual double max_ulps IEEE.neg_zero IEEE.pos_zero = Some true /\
  isEqual_double max_ulps IEEE.pos_zero IEEE.neg_zero = Some true.
Proof.
  intros Hm. unfold isEqual_double.
  rewrite !isEqual_instantiated by reflexivity.
  assert (D1 : FloatingPoint.distanceBetweenSignAndMagnitudeNumbers
                 double 64 IEEE.pos_zero IEEE.neg_zero = 0) by reflexivity.
  assert (D2 : FloatingPoint.distanceBetweenSignAndMagnitudeNumbers
                 double 64 IEEE.neg_zero IEEE.pos_zero = 0) by reflexivity.
  rewrite D1, D2.
  assert (E : (0 <=? max_ulps) = true) by (apply Z.leb_le; assumption).
  rewrite E. repeat split.
Qed.

(** C7: a larger tolerance accepts whatever a smaller one accepts. *)
Theorem isEqual_tolerance_monotonic (T : RawType) (n m a b : Z) :
  n <= m ->
  isEqual T n a b = Some true -> isEqual T m a b = Some true.
Proof.
  intros Hnm. unfold isEqual.
  destruct (width (TypeWithSize.UInt (sizeof T))) as [W|]; [|discriminate].
  cbv zeta. intros H. injection H as H. f_equal.
  apply Z.leb_le. apply Z.leb_le in H. lia.
Qed.

(** C8: [isEqual] gives the same answer when its two arguments are
    exchanged. *)
Theorem isEqual_symmetric (T : RawType) (n a b : Z) :
  isEqual T n a b = isEqual T n b a.
Proof.
  unfold isEqual.
  destruct (width (TypeWithSize.UInt (sizeof T))) as [W|]; [|reflexivity].
  cbv zeta. do 2 f_equal.
  unfold FloatingPoint.distanceBetweenSignAndMagnitudeNumbers. cbv zeta.
  destruct (Z.geb_spec (FloatingPoint.signAndMagnitudeToBiased T W a)
                       (FloatingPoint.signAndMagnitudeToBiased T W b)) as [H1|H1],
           (Z.geb_spec (FloatingPoint.signAndMagnitudeToBiased T W b)
                       (FloatingPoint.signAndMagnitudeToBiased T W a)) as [H2|H2];
    try reflexivity; try lia.
  replace (FloatingPoint.signAndMagnitudeToBiased T W b)
    with (FloatingPoint.signAndMagnitudeToBiased T W a) by lia.
  reflexivity.
Qed.

(** C9: for [double], the pattern after that of 1.0 encodes the smallest
    double above 1.0; its distance to 1.0 is one unit, so [isEqual] rejects
    the pair at tolerance 0 and accepts it at tolerance 1. *)
Theorem isEqual_adjacent_to_one :
  (IEEE.value double 64 IEEE.one == 1)%Q /\
  (1 < IEEE.value double 64 IEEE.next_after_one)%Q /\
  (forall x, UInt.in_range 64 x -> IEEE.is_finite double 64 x = true ->
     (1 < IEEE.value double 64 x)%Q ->
     (IEEE.value double 64 IEEE.next_after_one <= IEEE.value double 64 x)%Q) /\
  FloatingPoint.distanceBetweenSignAndMagnitudeNumbers
    double 64 IEEE.one IEEE.next_after_one = 1 /\
  isEqual double 0 IEEE.one IEEE.next_after_one = Some false /\
  isEqual double 1 IEEE.one IEEE.next_after_one = Some true.
Proof.
  assert (V1 : (IEEE.value double 64 IEEE.one == 1)%Q)
    by (vm_compute; reflexivity).
  assert (Hb : FloatingPoint.s_bitcount double = 64) by reflexivity.
  assert (Hf : 0 < FloatingPoint.s_fraction_bitcount double) by reflexivity.
  assert (He : 0 < FloatingPoint.s_exponent_bitcount double) by reflexivity.
  assert (R1 : UInt.in_range 64 IEEE.one) by (vm_compute; split; congruence).
  assert (R2 : UInt.in_range 64 IEEE.next_after_one)
    by (vm_compute; split; congruence).
  split; [exact V1|]. split; [vm_compute; reflexivity|].
  split; [|repeat split].
  intros x Rx Fx Hx.
  apply (biased_le_value double 64 Hb Hf He IEEE.next_after_one x R2 Rx
           eq_refl Fx).
  assert (Hn : ~ (FloatingPoint.signAndMagnitudeToBiased double 64 x
                  <= FloatingPoint.signAndMagnitudeToBiased double 64 IEEE.one)).
  { intros Hle.
    apply (biased_le_value double 64 Hb Hf He x IEEE.one Rx R1 Fx eq_refl)
      in Hle.
    rewrite V1 in Hle. exact (Qlt_not_le _ _ Hx Hle). }
  assert (B : FloatingPoint.signAndMagnitudeToBiased double 64 IEEE.next_after_one
              = FloatingPoint.signAndMagnitudeToBiased double 64 IEEE.one + 1)
    by reflexivity.
  rewrite B. lia.
Qed.

(** C10: the distance of two patterns is zero exactly when the patterns
    are the same or are the two zero patterns, [0] and [2 ^ (W - 1)]; put
    otherwise, [signAndMagnitudeToBiased] is injective but for the two
    zeros, which both go to [2 ^ (W - 1)]. *)
Theorem distance_zero_iff (T : RawType) (W a b : Z) :
  0 < W -> FloatingPoint.s_bitcount T = W ->
  UInt.in_range W a -> UInt.in_range W b ->
  (FloatingPoint.distanceBetweenSignAndMagnitudeNumbers T W a b = 0
   <-> a = b \/ (a = 0 /\ b = 2 ^ (W - 1)) \/ (a = 2 ^ (W - 1) /\ b = 0)) /\
  (FloatingPoint.signAndMagnitudeToBiased T W a
     = FloatingPoint.signAndMagnitudeToBiased T W b
   <-> a = b \/ (a = 0 /\ b = 2 ^ (W - 1)) \/ (a = 2 ^ (W - 1) /\ b = 0)) /\
  FloatingPoint.signAndMagnitudeToBiased T W 0 = 2 ^ (W - 1) /\
  FloatingPoint.signAndMagnitudeToBiased T W (2 ^ (W - 1)) = 2 ^ (W - 1).
Proof.
  intros HWp Hb Ra Rb.
  destruct (pow2_W_split W HWp) as [H2 HNp].
  rewrite (distance_closed T W HWp Hb a b Ra Rb).
  rewrite !(biased_closed T W HWp Hb) by (assumption || (unfold UInt.in_range; lia)).
  unfold UInt.in_range in Ra, Rb.
  rewrite Z.leb_refl.
  destruct (Z.leb_spec (2 ^ (W - 1)) a), (Z.leb_spec (2 ^ (W - 1)) b),
           (Z.leb_spec (2 ^ (W - 1)) 0); lia.
Qed.

(** ** The theorems at concrete inputs *)

Lemma isEqual_iff_distance_witness :
  width (TypeWithSize.UInt (sizeof double)) = Some 64 /\
  UInt.in_range 64 IEEE.one /\ UInt.in_range 64 IEEE.next_after_one /\
  FloatingPoint.distanceBetweenSignAndMagnitudeNumbers
    double 64 IEEE.one IEEE.next_after_one = 1 /\
  (isEqual double 10 IEEE.one IEEE.next_after_one = Some true <-> 1 <= 10).
Proof.
  assert (R1 : UInt.in_range 64 IEEE.one) by (vm_compute; split; congruence).
  assert (R2 : UInt.in_range 64 IEEE.next_after_one)
    by (vm_compute; split; congruence).
  split; [reflexivity|]. split; [exact R1|]. split; [exact R2|].
  destruct (isEqual_iff_distance double 64 10 IEEE.one IEEE.next_after_one
              eq_refl R1 R2) as (_ & Hd & Ht & _).
  split; [exact Hd | exact Ht].
Defined.

Lemma signAndMagnitudeToBiased_cases_witness :
  0 < 64 /\ FloatingPoint.s_bitcount double = 64 /\
  UInt.in_range 64 IEEE.minus_one /\
  FloatingPoint.s_sign_bitmask double 64 = 2 ^ (64 - 1) /\
  (Z.testbit IEEE.minus_one (64 - 1) = true ->
     FloatingPoint.signAndMagnitudeToBiased double 64 IEEE.minus_one
       = (Z.lnot IEEE.minus_one + 1) mod 2 ^ 64 /\
     FloatingPoint.signAndMagnitudeToBiased double 64 IEEE.minus_one
       = (- IEEE.minus_one) mod 2 ^ 64) /\
  (Z.testbit IEEE.minus_one (64 - 1) = false ->
     FloatingPoint.signAndMagnitudeToBiased double 64 IEEE.minus_one
       = Z.lor (FloatingPoint.s_sign_bitmask double 64) IEEE.minus_one /\
     FloatingPoint.signAndMagnitudeToBiased double 64 IEEE.minus_one
       = 2 ^ (64 - 1) + IEEE.minus_one).
Proof.
  assert (R : UInt.in_range 64 IEEE.minus_one)
    by (vm_compute; split; congruence).
  split; [reflexivity|]. split; [reflexivity|]. split; [exact R|].
  apply (signAndMagnitudeToBiased_cases double 64 IEEE.minus_one);
    [reflexivity | reflexivity | exact R].
Defined.

Lemma biased_order_preserving_witness :
  FloatingPoint.s_bitcount double = 64 /\
  0 < FloatingPoint.s_fraction_bitcount double /\
  0 < FloatingPoint.s_exponent_bitcount double /\
  UInt.in_range 64 IEEE.one /\ UInt.in_range 64 IEEE.minus_one /\
  IEEE.is_finite double 64 IEEE.one = true /\
  IEEE.is_finite double 64 IEEE.minus_one = true /\
  (FloatingPoint.signAndMagnitudeToBiased double 64 IEEE.one
     >= FloatingPoint.signAndMagnitudeToBiased double 64 IEEE.minus_one
   <-> (IEEE.value double 64 IEEE.minus_one <= IEEE.value double 64 IEEE.one)%Q).
Proof.
  assert (R1 : UInt.in_range 64 IEEE.one) by (vm_compute; split; congruence).
  assert (R2 : UInt.in_range 64 IEEE.minus_one)
    by (vm_compute; split; congruence).
  repeat (split; [first [reflexivity | exact R1 | exact R2]|]).
  exact (proj1 (biased_order_preserving double 64 IEEE.one IEEE.minus_one
                  eq_refl eq_refl eq_refl R1 R2 eq_refl eq_refl)).
Defined.

Lemma isEqual_signed_zeros_witness :
  0 <= 0 /\
  isEqual double 0 IEEE.pos_zero IEEE.neg_zero = Some true.
Proof.
  split; [apply Z.le_refl|].
  exact (proj1 (proj2 (isEqual_signed_zeros 0 (Z.le_refl 0)))).
Defined.

Lemma isEqual_tolerance_monotonic_witness :
  1 <= 10 /\
  isEqual double 1 IEEE.one IEEE.next_after_one = Some true /\
  isEqual double 10 IEEE.one IEEE.next_after_one = Some true.
Proof.
  assert (L : 1 <= 10) by (vm_compute; congruence).
  split; [exact L|]. split; [reflexivity|].
  apply (isEqual_tolerance_monotonic double 1 10 IEEE.one IEEE.next_after_one L).
  reflexivity.
Defined.

Lemma distance_zero_iff_witness :
  0 < 64 /\ FloatingPoint.s_bitcount double = 64 /\
  UInt.in_range 64 IEEE.pos_zero /\ UInt.in_range 64 IEEE.neg_zero /\
  (FloatingPoint.distanceBetweenSignAndMagnitudeNumbers
     double 64 IEEE.pos_zero IEEE.neg_zero = 0
   <-> IEEE.pos_zero = IEEE.neg_zero \/
       (IEEE.pos_zero = 0 /\ IEEE.neg_zero = 2 ^ (64 - 1)) \/
       (IEEE.pos_zero = 2 ^ (64 - 1) /\ IEEE.neg_zero = 0)).
Proof.
  assert (R1 : UInt.in_range 64 IEEE.pos_zero)
    by (vm_compute; split; congruence).
  assert (R2 : UInt.in_range 64 IEEE.neg_zero)
    by (vm_compute; split; congruence).
  split; [reflexivity|]. split; [reflexivity|]. split; [exact R1|].
  split; [exact R2|].
  exact (proj1 (distance_zero_iff double 64 IEEE.pos_zero IEEE.neg_zero
                  eq_refl eq_refl R1 R2)).
Defined.

(** ** The masks and the fields they select *)

Section Masks.
Variable T : RawType.
Variable W : Z.
Hypothesis W_bitcount : FloatingPoint.s_bitcount T = W.
Hypothesis fraction_pos : 0 < FloatingPoint.s_fraction_bitcount T.
Hypothesis exponent_pos : 0 < FloatingPoint.s_exponent_bitcount T.

Let p : Z := FloatingPoint.s_fraction_bitcount T.
Let q : Z := FloatingPoint.s_exponent_bitcount T.

Lemma sign_bitmask_bits (n : Z) :
  0 <= n -> Z.testbit (FloatingPoint.s_sign_bitmask T W) n = (n =? W - 1).
Proof.
  intros Hn.
  pose proof (W_pos_of_fields T W W_bitcount fraction_pos exponent_pos) as HWp.
  rewrite (sign_bitmask_closed T W HWp W_bitcount).
  rewrite Z.pow2_bits_eqb by lia. apply Z.eqb_sym.
Qed.

Lemma fraction_bitmask_bits (n : Z) :
  0 <= n -> Z.testbit (FloatingPoint.s_fraction_bitmask T W) n = (n <? p).
Proof.
  intros Hn.
  rewrite (fraction_bitmask_closed T W W_bitcount fraction_pos exponent_pos).
  apply Z.testbit_ones_nonneg; unfold p; lia.
Qed.

Lemma exponent_bitmask_bits (n : Z) :
  0 <= n ->
  Z.testbit (FloatingPoint.s_exponent_bitmask T W) n
    = (p <=? n) && (n <? W - 1).
Proof.
  intros Hn.
  pose proof (W_split T W W_bitcount) as HW.
  rewrite (exponent_bitmask_closed T W W_bitcount fraction_pos exponent_pos).
  fold p q in HW |- *.
  destruct (Z.leb_spec p n) as [Hpn|Hpn].
  - rewrite Z.shiftl_spec_high by (unfold p in *; lia).
    rewrite Z.testbit_ones_nonneg by (unfold q in *; lia).
    destruct (Z.ltb_spec n (W - 1)), (Z.ltb_spec (n - p) q); lia || reflexivity.
  - rewrite Z.shiftl_spec_low by assumption. reflexivity.
Qed.

(** X1: the numbers the three masks are. *)
Theorem bitmasks_values :
  FloatingPoint.s_sign_bitmask T W = 2 ^ (W - 1) /\
  FloatingPoint.s_fraction_bitmask T W = 2 ^ p - 1 /\
  FloatingPoint.s_exponent_bitmask T W = (2 ^ q - 1) * 2 ^ p /\
  FloatingPoint.s_exponent_bitmask T W = 2 ^ (W - 1) - 2 ^ p.
Proof.
  pose proof (W_pos_of_fields T W W_bitcount fraction_pos exponent_pos) as HWp.
  destruct (N_split T W W_bitcount fraction_pos exponent_pos) as (HN & Hp & Hq).
  fold p q in HN, Hp, Hq.
  rewrite (sign_bitmask_closed T W HWp W_bitcount).
  rewrite (fraction_bitmask_closed T W W_bitcount fraction_pos exponent_pos).
  rewrite (exponent_bitmask_closed T W W_bitcount fraction_pos exponent_pos).
  fold p q. rewrite Z.shiftl_mul_pow2 by (unfold p; lia).
  rewrite !Z.ones_equiv. repeat split; lia.
Qed.

(** X2: the three masks share no bit and together cover the [W] bits. *)
Theorem bitmasks_partition :
  Z.land (FloatingPoint.s_sign_bitmask T W)
         (FloatingPoint.s_exponent_bitmask T W) = 0 /\
  Z.land (FloatingPoint.s_sign_bitmask T W)
         (FloatingPoint.s_fraction_bitmask T W) = 0 /\
  Z.land (FloatingPoint.s_exponent_bitmask T W)
         (FloatingPoint.s_fraction_bitmask T W) = 0 /\
  Z.lor (FloatingPoint.s_sign_bitmask T W)
        (Z.lor (FloatingPoint.s_exponent_bitmask T W)
               (FloatingPoint.s_fraction_bitmask T W)) = UInt.lnot W 0.
Proof.
  pose proof (W_pos_of_fields T W W_bitcount fraction_pos exponent_pos) as HWp.
  pose proof (W_split T W W_bitcount) as HW.
  fold p q in HW.
  assert (Hall : UInt.lnot W 0 = Z.ones W).
  { rewrite lnot_closed by
      (assumption || (unfold UInt.in_range; destruct (pow2_W_split W HWp); lia)).
    rewrite Z.ones_equiv. lia. }
  rewrite Hall.
  repeat split; apply Z.bits_inj'; intros n Hn;
    rewrite ?Z.land_spec, ?Z.lor_spec, ?Z.bits_0,
            ?sign_bitmask_bits, ?fraction_bitmask_bits, ?exponent_bitmask_bits,
            ?Z.testbit_ones_nonneg by lia;
    destruct (Z.eqb_spec n (W - 1)), (Z.leb_spec p n), (Z.ltb_spec n (W - 1)),
             (Z.ltb_spec n p), (Z.ltb_spec n W);
    simpl; reflexivity || (unfold p, q in *; lia).
Qed.

(** X3: what the two accessors return, for any [m_bits]: the fraction field in
    place, and the exponent field in place, with the bits below it zero. *)
Theorem field_accessors_values (m_bits : Z) :
  FloatingPoint.fractionBits T W m_bits = m_bits mod 2 ^ p /\
  FloatingPoint.exponentBits T W m_bits = (m_bits / 2 ^ p) mod 2 ^ q * 2 ^ p /\
  0 <= FloatingPoint.fractionBits T W m_bits
    <= FloatingPoint.s_fraction_bitmask T W /\
  0 <= FloatingPoint.exponentBits T W m_bits
    <= FloatingPoint.s_exponent_bitmask T W.
Proof.
  destruct (N_split T W W_bitcount fraction_pos exponent_pos) as (HN & Hp & Hq).
  fold p q in HN, Hp, Hq.
  assert (Vf : FloatingPoint.s_fraction_bitmask T W = 2 ^ p - 1).
  { rewrite (fraction_bitmask_closed T W W_bitcount fraction_pos exponent_pos).
    fold p. rewrite Z.ones_equiv. lia. }
  assert (Ve : FloatingPoint.s_exponent_bitmask T W = (2 ^ q - 1) * 2 ^ p).
  { rewrite (exponent_bitmask_closed T W W_bitcount fraction_pos exponent_pos).
    fold p q. rewrite Z.shiftl_mul_pow2 by (unfold p; lia).
    rewrite Z.ones_equiv. lia. }
  pose proof (fractionBits_closed T W W_bitcount fraction_pos exponent_pos m_bits)
    as Ff.
  pose proof (exponentBits_closed T W W_bitcount fraction_pos exponent_pos m_bits)
    as Fe.
  rewrite (biased_exponent_closed T W W_bitcount fraction_pos exponent_pos) in Fe.
  fold p in Ff, Fe.
  assert (Hdiv : (m_bits mod 2 ^ (W - 1)) / 2 ^ p = (m_bits / 2 ^ p) mod 2 ^ q).
  { rewrite HN, (Z.mul_comm (2 ^ q)), Z.rem_mul_r by lia.
    rewrite (Z.mul_comm (2 ^ p)), Z.div_add by lia.
    rewrite Z.div_small by (apply Z.mod_pos_bound; lia). lia. }
  rewrite Hdiv in Fe.
  pose proof (Z.mod_pos_bound m_bits (2 ^ p) Hp).
  pose proof (Z.mod_pos_bound (m_bits / 2 ^ p) (2 ^ q) ltac:(lia)).
  rewrite Ff, Fe, Vf, Ve. repeat split; try lia; nia.
Qed.

(** X4: a pattern is the sum of its three fields: nothing is lost and nothing
    is counted twice. *)
Theorem fields_reassemble (m_bits : Z) :
  UInt.in_range W m_bits ->
  Z.land (FloatingPoint.s_sign_bitmask T W) m_bits
    + FloatingPoint.exponentBits T W m_bits
    + FloatingPoint.fractionBits T W m_bits = m_bits.
Proof.
  intros Hm.
  pose proof (W_pos_of_fields T W W_bitcount fraction_pos exponent_pos) as HWp.
  destruct (N_split T W W_bitcount fraction_pos exponent_pos) as (HN & Hp & Hq).
  fold p q in HN, Hp, Hq.
  rewrite (exponentBits_closed T W W_bitcount fraction_pos exponent_pos).
  rewrite (biased_exponent_closed T W W_bitcount fraction_pos exponent_pos).
  rewrite (fractionBits_closed T W W_bitcount fraction_pos exponent_pos).
  rewrite <- (fraction_of_magnitude T W W_bitcount fraction_pos exponent_pos).
  fold p.
  pose proof (Z.div_mod (m_bits mod 2 ^ (W - 1)) (2 ^ p) ltac:(lia)) as D.
  rewrite (magnitude_closed T W W_bitcount fraction_pos exponent_pos m_bits Hm)
    in D |- *.
  rewrite (sign_bitmask_closed T W HWp W_bitcount).
  rewrite land_pow2, top_bit by (assumption || lia).
  destruct (2 ^ (W - 1) <=? m_bits); lia.
Qed.
End Masks.

(** ** The biased representation as an offset *)

Section Offset.
Variable T : RawType.
Variable W : Z.
Hypothesis W_pos : 0 < W.
Hypothesis W_bitcount : FloatingPoint.s_bitcount T = W.

Lemma to_Z_closed (sam : Z) :
  UInt.in_range W sam ->
  SignAndMagnitude.to_Z W sam =
    if 2 ^ (W - 1) <=? sam then 2 ^ (W - 1) - sam else sam.
Proof.
  intros Hs. unfold SignAndMagnitude.to_Z, SignAndMagnitude.magnitude.
  rewrite top_bit, Z.land_ones by (assumption || lia).
  destruct (pow2_W_split W W_pos) as [H2 HNp]. unfold UInt.in_range in Hs.
  destruct (Z.leb_spec (2 ^ (W - 1)) sam).
  - rewrite <- (Z.mod_unique_pos sam (2 ^ (W - 1)) 1 (sam - 2 ^ (W - 1))); lia.
  - rewrite Z.mod_small; lia.
Qed.

(** X5: the biased pattern of [sam] is the integer [sam] stands for in
    sign-and-magnitude representation, moved up by [2 ^ (W - 1)]; that
    integer lies between [-(2 ^ (W - 1) - 1)] and [2 ^ (W - 1) - 1], so the
    biased pattern lies between [1] and [2 ^ W - 1] and is never [0]. *)
Theorem biased_is_offset (sam : Z) :
  UInt.in_range W sam ->
  FloatingPoint.signAndMagnitudeToBiased T W sam
    = SignAndMagnitude.to_Z W sam + 2 ^ (W - 1) /\
  - (2 ^ (W - 1) - 1) <= SignAndMagnitude.to_Z W sam <= 2 ^ (W - 1) - 1 /\
  1 <= FloatingPoint.signAndMagnitudeToBiased T W sam <= 2 ^ W - 1.
Proof.
  intros Hs.
  rewrite (biased_closed T W W_pos W_bitcount sam Hs), (to_Z_closed sam Hs).
  destruct (pow2_W_split W W_pos) as [H2 HNp]. unfold UInt.in_range in Hs.
  destruct (Z.leb_spec (2 ^ (W - 1)) sam); lia.
Qed.

(** X6: every number from [1] to [2 ^ W - 1] is the biased pattern of some
    pattern: the most negative integer goes to [1], the biggest to
    [2 ^ W - 1]. *)
Theorem biased_onto (y : Z) :
  1 <= y <= 2 ^ W - 1 ->
  exists sam, UInt.in_range W sam /\
              FloatingPoint.signAndMagnitudeToBiased T W sam = y.
Proof.
  intros Hy. destruct (pow2_W_split W W_pos) as [H2 HNp].
  destruct (Z.le_gt_cases (2 ^ (W - 1)) y) as [Hge|Hlt].
  - exists (y - 2 ^ (W - 1)).
    assert (R : UInt.in_range W (y - 2 ^ (W - 1)))
      by (unfold UInt.in_range; lia).
    split; [exact R|]. rewrite (biased_closed T W W_pos W_bitcount _ R).
    destruct (Z.leb_spec (2 ^ (W - 1)) (y - 2 ^ (W - 1))); lia.
  - exists (2 ^ W - y).
    assert (R : UInt.in_range W (2 ^ W - y)) by (unfold UInt.in_range; lia).
    split; [exact R|]. rewrite (biased_closed T W W_pos W_bitcount _ R).
    destruct (Z.leb_spec (2 ^ (W - 1)) (2 ^ W - y)); lia.
Qed.

(** ** The distance *)

(** X7: the distance of two patterns of the same sign is the difference of
    their magnitudes; of two patterns of opposite signs, the sum. *)
Theorem distance_by_sign (a b : Z) :
  0 <= a < 2 ^ (W - 1) -> 0 <= b < 2 ^ (W - 1) ->
  FloatingPoint.distanceBetweenSignAndMagnitudeNumbers T W a b
    = Z.abs (a - b) /\
  FloatingPoint.distanceBetweenSignAndMagnitudeNumbers T W
    (2 ^ (W - 1) + a) (2 ^ (W - 1) + b) = Z.abs (a - b) /\
  FloatingPoint.distanceBetweenSignAndMagnitudeNumbers T W
    a (2 ^ (W - 1) + b) = a + b /\
  FloatingPoint.distanceBetweenSignAndMagnitudeNumbers T W
    (2 ^ (W - 1) + a) b = a + b.
Proof.
  intros Ha Hb. destruct (pow2_W_split W W_pos) as [H2 HNp].
  assert (Ra : UInt.in_range W a) by (unfold UInt.in_range; lia).
  assert (Rb : UInt.in_range W b) by (unfold UInt.in_range; lia).
  assert (Ra' : UInt.in_range W (2 ^ (W - 1) + a))
    by (unfold UInt.in_range; lia).
  assert (Rb' : UInt.in_range W (2 ^ (W - 1) + b))
    by (unfold UInt.in_range; lia).
  rewrite !(distance_closed T W W_pos W_bitcount) by assumption.
  rewrite !(biased_closed T W W_pos W_bitcount) by assumption.
  destruct (Z.leb_spec (2 ^ (W - 1)) a), (Z.leb_spec (2 ^ (W - 1)) b),
           (Z.leb_spec (2 ^ (W - 1)) (2 ^ (W - 1) + a)),
           (Z.leb_spec (2 ^ (W - 1)) (2 ^ (W - 1) + b)); lia.
Qed.

(** X8: the distance obeys the triangle inequality. *)
Theorem distance_triangle (a b c : Z) :
  UInt.in_range W a -> UInt.in_range W b -> UInt.in_range W c ->
  FloatingPoint.distanceBetweenSignAndMagnitudeNumbers T W a c
    <= FloatingPoint.distanceBetweenSignAndMagnitudeNumbers T W a b
       + FloatingPoint.distanceBetweenSignAndMagnitudeNumbers T W b c.
Proof.
  intros Ra Rb Rc.
  rewrite !(distance_closed T W W_pos W_bitcount) by assumption. lia.
Qed.

(** X9: no two patterns are further apart than [2 ^ W - 2], and the two
    patterns of largest magnitude are that far apart. *)
Theorem distance_bound (a b : Z) :
  UInt.in_range W a -> UInt.in_range W b ->
  0 <= FloatingPoint.distanceBetweenSignAndMagnitudeNumbers T W a b
    <= 2 ^ W - 2 /\
  FloatingPoint.distanceBetweenSignAndMagnitudeNumbers T W
    (2 ^ (W - 1) - 1) (2 ^ W - 1) = 2 ^ W - 2.
Proof.
  intros Ra Rb. destruct (pow2_W_split W W_pos) as [H2 HNp].
  pose proof (biased_range T W W_pos W_bitcount a Ra).
  pose proof (biased_range T W W_pos W_bitcount b Rb).
  assert (R1 : UInt.in_range W (2 ^ (W - 1) - 1))
    by (unfold UInt.in_range; lia).
  assert (R2 : UInt.in_range W (2 ^ W - 1)) by (unfold UInt.in_range; lia).
  rewrite !(distance_closed T W W_pos W_bitcount) by assumption.
  split; [lia|].
  rewrite !(biased_closed T W W_pos W_bitcount) by assumption.
  destruct (Z.leb_spec (2 ^ (W - 1)) (2 ^ (W - 1) - 1)),
           (Z.leb_spec (2 ^ (W - 1)) (2 ^ W - 1)); lia.
Qed.
End Offset.

(** ** Further properties of [isEqual] *)

(** X10: a value is equal to itself at every tolerance, whatever its pattern
    encodes: a NaN is equal to itself too. *)
Theorem isEqual_reflexive (T : RawType) (max_ulps x : Z) :
  sizeof T = 8 -> 0 <= max_ulps ->
  isEqual T max_ulps x x = Some true.
Proof.
  intros Hs Hm. rewrite isEqual_instantiated by assumption. f_equal.
  unfold FloatingPoint.distanceBetweenSignAndMagnitudeNumbers. cbv zeta.
  rewrite Z.geb_leb, Z.leb_refl. unfold UInt.sub, UInt.wrap.
  rewrite Z.sub_diag, Z.mod_0_l by (apply Z.pow_nonzero; lia).
  apply Z.leb_le. assumption.
Qed.

(** X11: tolerances add up along a chain: if [a] and [b] are equal within [n]
    and [b] and [c] within [m], then [a] and [c] are equal within
    [n + m]. *)
Theorem isEqual_chain (T : RawType) (n m a b c : Z) :
  UInt.in_range 64 a -> UInt.in_range 64 b -> UInt.in_range 64 c ->
  isEqual T n a b = Some true -> isEqual T m b c = Some true ->
  isEqual T (n + m) a c = Some true.
Proof.
  intros Ra Rb Rc Hab Hbc.
  destruct (Z.eq_dec (sizeof T) 8) as [Hs|Hs];
    [|rewrite isEqual_rejected in Hab by assumption; discriminate].
  assert (Hb : FloatingPoint.s_bitcount T = 64)
    by (unfold FloatingPoint.s_bitcount; lia).
  rewrite isEqual_instantiated in * by assumption.
  injection Hab as Hab. injection Hbc as Hbc. f_equal.
  apply Z.leb_le in Hab, Hbc. apply Z.leb_le.
  rewrite (distance_closed T 64 ltac:(lia) Hb) in * by assumption. lia.
Qed.

(** X12: at tolerance 0 two patterns are equal exactly when they are the same
    pattern or the two zeros. *)
Theorem isEqual_zero_tolerance (T : RawType) (W a b : Z) :
  width (TypeWithSize.UInt (sizeof T)) = Some W ->
  UInt.in_range W a -> UInt.in_range W b ->
  (isEqual T 0 a b = Some true
   <-> a = b \/ (a = 0 /\ b = 2 ^ (W - 1)) \/ (a = 2 ^ (W - 1) /\ b = 0)).
Proof.
  intros HW Ra Rb. destruct (width_bitcount T W HW) as (Hs & HW64 & Hb).
  assert (HWp : 0 < W) by lia.
  rewrite isEqual_instantiated by assumption. rewrite <- HW64.
  assert (E : forall x : bool, Some x = Some true <-> x = true)
    by (intros x; split; congruence).
  rewrite E, Z.leb_le.
  rewrite (distance_closed T W HWp Hb a b Ra Rb).
  rewrite !(biased_closed T W HWp Hb) by assumption.
  unfold UInt.in_range in Ra, Rb.
  destruct (pow2_W_split W HWp) as [H2 HN].
  clear HW HW64 Hb.
  destruct (Z.leb_spec (2 ^ (W - 1)) a), (Z.leb_spec (2 ^ (W - 1)) b); lia.
Qed.

Section Infinity.
Variable T : RawType.
Variable W : Z.
Hypothesis W_bitcount : FloatingPoint.s_bitcount T = W.
Hypothesis fraction_pos : 0 < FloatingPoint.s_fraction_bitcount T.
Hypothesis exponent_pos : 0 < FloatingPoint.s_exponent_bitcount T.

End Infinity.

(** ** The further properties at concrete inputs *)

Lemma bitmasks_values_witness :
  FloatingPoint.s_bitcount double = 64 /\
  0 < FloatingPoint.s_fraction_bitcount double /\
  0 < FloatingPoint.s_exponent_bitcount double /\
  FloatingPoint.s_exponent_bitmask double 64 = 2 ^ (64 - 1) - 2 ^ 52.
Proof.
  repeat (split; [reflexivity|]).
  exact (proj2 (proj2 (proj2
    (bitmasks_values double 64 eq_refl eq_refl eq_refl)))).
Defined.

Lemma bitmasks_partition_witness :
  FloatingPoint.s_bitcount double = 64 /\
  0 < FloatingPoint.s_fraction_bitcount double /\
  0 < FloatingPoint.s_exponent_bitcount double /\
  Z.lor (FloatingPoint.s_sign_bitmask double 64)
        (Z.lor (FloatingPoint.s_exponent_bitmask double 64)
               (FloatingPoint.s_fraction_bitmask double 64))
    = UInt.lnot 64 0.
Proof.
  repeat (split; [reflexivity|]).
  exact (proj2 (proj2 (proj2
    (bitmasks_partition double 64 eq_refl eq_refl eq_refl)))).
Defined.

Lemma field_accessors_values_witness :
  FloatingPoint.s_bitcount double = 64 /\
  0 < FloatingPoint.s_fraction_bitcount double /\
  0 < FloatingPoint.s_exponent_bitcount double /\
  FloatingPoint.exponentBits double 64 IEEE.minus_one
    = (IEEE.minus_one / 2 ^ 52) mod 2 ^ 11 * 2 ^ 52.
Proof.
  repeat (split; [reflexivity|]).
  exact (proj1 (proj2
    (field_accessors_values double 64 eq_refl eq_refl eq_refl IEEE.minus_one))).
Defined.

Lemma fields_reassemble_witness :
  FloatingPoint.s_bitcount double = 64 /\
  0 < FloatingPoint.s_fraction_bitcount double /\
  0 < FloatingPoint.s_exponent_bitcount double /\
  UInt.in_range 64 IEEE.minus_one /\
  Z.land (FloatingPoint.s_sign_bitmask double 64) IEEE.minus_one
    + FloatingPoint.exponentBits double 64 IEEE.minus_one
    + FloatingPoint.fractionBits double 64 IEEE.minus_one = IEEE.minus_one.
Proof.
  assert (R : UInt.in_range 64 IEEE.minus_one)
    by (vm_compute; split; congruence).
  repeat (split; [reflexivity || exact R|]).
  exact (fields_reassemble double 64 eq_refl eq_refl eq_refl IEEE.minus_one R).
Defined.

Lemma biased_is_offset_witness :
  0 < 64 /\ FloatingPoint.s_bitcount double = 64 /\
  UInt.in_range 64 IEEE.minus_one /\
  FloatingPoint.signAndMagnitudeToBiased double 64 IEEE.minus_one
    = SignAndMagnitude.to_Z 64 IEEE.minus_one + 2 ^ (64 - 1).
Proof.
  assert (R : UInt.in_range 64 IEEE.minus_one)
    by (vm_compute; split; congruence).
  repeat (split; [reflexivity || exact R|]).
  exact (proj1 (biased_is_offset double 64 eq_refl eq_refl IEEE.minus_one R)).
Defined.

Lemma biased_onto_witness :
  0 < 64 /\ FloatingPoint.s_bitcount double = 64 /\
  1 <= 1 <= 2 ^ 64 - 1 /\
  exists sam, UInt.in_range 64 sam /\
              FloatingPoint.signAndMagnitudeToBiased double 64 sam = 1.
Proof.
  assert (R : 1 <= 1 <= 2 ^ 64 - 1) by (vm_compute; split; congruence).
  repeat (split; [reflexivity || exact R|]).
  exact (biased_onto double 64 eq_refl eq_refl 1 R).
Defined.

Lemma distance_by_sign_witness :
  0 < 64 /\ FloatingPoint.s_bitcount double = 64 /\
  0 <= 1 < 2 ^ (64 - 1) /\ 0 <= 2 < 2 ^ (64 - 1) /\
  FloatingPoint.distanceBetweenSignAndMagnitudeNumbers double 64
    1 (2 ^ (64 - 1) + 2) = 1 + 2.
Proof.
  assert (R1 : 0 <= 1 < 2 ^ (64 - 1)) by (vm_compute; split; congruence).
  assert (R2 : 0 <= 2 < 2 ^ (64 - 1)) by (vm_compute; split; congruence).
  repeat (split; [reflexivity || exact R1 || exact R2|]).
  exact (proj1 (proj2 (proj2
    (distance_by_sign double 64 eq_refl eq_refl 1 2 R1 R2)))).
Defined.

Lemma distance_triangle_witness :
  0 < 64 /\ FloatingPoint.s_bitcount double = 64 /\
  UInt.in_range 64 IEEE.minus_one /\ UInt.in_range 64 IEEE.neg_zero /\
  UInt.in_range 64 IEEE.one /\
  FloatingPoint.distanceBetweenSignAndMagnitudeNumbers double 64
    IEEE.minus_one IEEE.one
  <= FloatingPoint.distanceBetweenSignAndMagnitudeNumbers double 64
       IEEE.minus_one IEEE.neg_zero
     + FloatingPoint.distanceBetweenSignAndMagnitudeNumbers double 64
         IEEE.neg_zero IEEE.one.
Proof.
  assert (R1 : UInt.in_range 64 IEEE.minus_one)
    by (vm_compute; split; congruence).
  assert (R2 : UInt.in_range 64 IEEE.neg_zero)
    by (vm_compute; split; congruence).
  assert (R3 : UInt.in_range 64 IEEE.one) by (vm_compute; split; congruence).
  repeat (split; [reflexivity || exact R1 || exact R2 || exact R3|]).
  exact (distance_triangle double 64 eq_refl eq_refl
           IEEE.minus_one IEEE.neg_zero IEEE.one R1 R2 R3).
Defined.

Lemma distance_bound_witness :
  0 < 64 /\ FloatingPoint.s_bitcount double = 64 /\
  UInt.in_range 64 IEEE.minus_one /\ UInt.in_range 64 IEEE.one /\
  0 <= FloatingPoint.distanceBetweenSignAndMagnitudeNumbers double 64
         IEEE.minus_one IEEE.one <= 2 ^ 64 - 2.
Proof.
  assert (R1 : UInt.in_range 64 IEEE.minus_one)
    by (vm_compute; split; congruence).
  assert (R2 : UInt.in_range 64 IEEE.one) by (vm_compute; split; congruence).
  repeat (split; [reflexivity || exact R1 || exact R2|]).
  exact (proj1 (distance_bound double 64 eq_refl eq_refl
                  IEEE.minus_one IEEE.one R1 R2)).
Defined.

Lemma isEqual_reflexive_witness :
  sizeof double = 8 /\ 0 <= 0 /\
  IEEE.decode double 64 0x7FF8000000000000 = S754_nan /\
  isEqual double 0 0x7FF8000000000000 0x7FF8000000000000 = Some true.
Proof.
  split; [reflexivity|]. split; [apply Z.le_refl|]. split; [reflexivity|].
  exact (isEqual_reflexive double 0 0x7FF8000000000000 eq_refl (Z.le_refl 0)).
Defined.

Lemma isEqual_chain_witness :
  UInt.in_range 64 IEEE.one /\ UInt.in_range 64 IEEE.next_after_one /\
  UInt.in_range 64 (IEEE.next_after_one + 1) /\
  isEqual double 1 IEEE.one IEEE.next_after_one = Some true /\
  isEqual double 1 IEEE.next_after_one (IEEE.next_after_one + 1) = Some true /\
  isEqual double (1 + 1) IEEE.one (IEEE.next_after_one + 1) = Some true.
Proof.
  assert (R1 : UInt.in_range 64 IEEE.one) by (vm_compute; split; congruence).
  assert (R2 : UInt.in_range 64 IEEE.next_after_one)
    by (vm_compute; split; congruence).
  assert (R3 : UInt.in_range 64 (IEEE.next_after_one + 1))
    by (vm_compute; split; congruence).
  repeat (split; [reflexivity || exact R1 || exact R2 || exact R3|]).
  exact (isEqual_chain double 1 1 IEEE.one IEEE.next_after_one
           (IEEE.next_after_one + 1) R1 R2 R3 eq_refl eq_refl).
Defined.

Lemma isEqual_zero_tolerance_witness :
  width (TypeWithSize.UInt (sizeof double)) = Some 64 /\
  UInt.in_range 64 IEEE.one /\ UInt.in_range 64 IEEE.next_after_one /\
  (isEqual double 0 IEEE.one IEEE.next_after_one = Some true
   <-> IEEE.one = IEEE.next_after_one \/
       (IEEE.one = 0 /\ IEEE.next_after_one = 2 ^ (64 - 1)) \/
       (IEEE.one = 2 ^ (64 - 1) /\ IEEE.next_after_one = 0)).
Proof.
  assert (R1 : UInt.in_range 64 IEEE.one) by (vm_compute; split; congruence).
  assert (R2 : UInt.in_range 64 IEEE.next_after_one)
    by (vm_compute; split; congruence).
  repeat (split; [reflexivity || exact R1 || exact R2|]).
  exact (isEqual_zero_tolerance double 64 IEEE.one IEEE.next_after_one
           eq_refl R1 R2).
Defined.

